(** * scripts/cr_transcripts.py: the index and transcript extractors

    A shallow embedding of the two [HTMLParser] subclasses of
    [scripts/cr_transcripts.py] and of the rendering loop of [main], with
    the properties of the extractors stated over the stream of callbacks
    ([handle_starttag], [handle_endtag], [handle_data]) that the tokenizer
    of [html.parser] delivers. *)

From stdpp Require Import gmap strings list fin_maps.
From Stdlib Require Import NArith Ascii.

Local Open Scope N_scope.
Local Open Scope list_scope.

(** ** Python values *)

(** A Python [str] is a sequence of Unicode code points. *)
Module PyStr.

Abbreviation char := N (only parsing).
Abbreviation str := (list N) (only parsing).

(** An ASCII literal of the source, as a [str]. *)
Definition lit (s : string) : str :=
  N_of_ascii <$> String.list_ascii_of_string s.
Arguments lit : simpl never.

(** [ch.isspace()], the test [str.strip()] uses when called without an
    argument: the ASCII table of CPython below 128, the Unicode
    White_Space code points above. *)
Definition isspace (c : char) : bool :=
  ((9 <=? c) && (c <=? 13)) || ((28 <=? c) && (c <=? 32))
  || (c =? 133) || (c =? 160) || (c =? 5760)
  || ((8192 <=? c) && (c <=? 8202))
  || (c =? 8232) || (c =? 8233) || (c =? 8239) || (c =? 8287)
  || (c =? 12288).

(** [s.lstrip()] *)
Fixpoint lstrip (s : str) : str :=
  match s with
  | c :: s' => if isspace c then lstrip s' else s
  | [] => []
  end.

(** [s.rstrip()] *)
Definition rstrip (s : str) : str := rev (lstrip (rev s)).

(** [s.strip()] *)
Definition strip (s : str) : str := rstrip (lstrip s).

(** [bool(s)]: the empty string is the only falsy one. *)
Definition truthy (s : str) : bool :=
  match s with [] => false | _ :: _ => true end.

End PyStr.
Import PyStr.

(** Exceptions the modelled statements can raise. *)
Inductive exn : Type :=
| IndexError
| KeyError.

Inductive result (A : Type) : Type :=
| Ok (a : A)
| Raise (e : exn).
Arguments Ok {A} a.
Arguments Raise {A} e.

(** Sequencing: an exception ends the computation. *)
#[global] Instance result_bind : MBind result := fun A B k m =>
  match m with
  | Ok a => k a
  | Raise e => Raise e
  end.

(** [l[-1]] *)
Definition getitem_last {A : Type} (l : list A) : result A :=
  match last l with
  | Some a => Ok a
  | None => Raise IndexError
  end.

(** [d[k]] on a dict *)
Definition getitem (d : gmap (list N) (list N)) (k : str) : result str :=
  match d !! k with
  | Some v => Ok v
  | None => Raise KeyError
  end.

(** [dict(attrs)]: pairs are inserted from left to right, so a later pair
    overwrites an earlier one with the same key. *)
Definition dict_of {V : Type} (attrs : list (list N * V)) : gmap (list N) V :=
  foldl (fun d kv => <[kv.1 := kv.2]> d) ∅ attrs.

(** ** Callbacks of the tokenizer *)

(** [attrs: list[Tuple[str, Optional[str]]]] *)
Abbreviation attr_list := (list (list N * option (list N))) (only parsing).

Inductive event : Type :=
| StartTag (tag : str) (attrs : attr_list)
| EndTag (tag : str)
| Data (data : str).

(** Running a parser over the callbacks of one [feed]. *)
Fixpoint run {S : Type} (step : S → event → result S) (s : S)
    (evs : list event) : result S :=
  match evs with
  | [] => Ok s
  | e :: evs' => s' ← step s e; run step s' evs'
  end.

(** ** The pattern [TRANSCRIPT_RE] *)
Module Re.

(** The constructs that occur in [r"^cr.+\.html$"]. *)
Inductive atom : Type :=
| Chr (c : char)     (* a literal character, [\.] included *)
| Dot.               (* [.]: any character but a newline (no DOTALL) *)

Inductive item : Type :=
| Caret              (* [^]: start of the string (no MULTILINE) *)
| One (a : atom)
| Plus (a : atom)    (* [a+] *)
| Dollar.            (* [$]: end of the string, or just before a
                        newline that ends the string *)

Definition atom_ok (a : atom) (c : char) : bool :=
  match a with
  | Chr c' => c =? c'
  | Dot => negb (c =? 10)
  end.

Definition at_end (s : str) : bool :=
  match s with
  | [] => true
  | [c] => c =? 10
  | _ => false
  end.

(** [a+] followed by the continuation [k], by backtracking. *)
Fixpoint plus (a : atom) (k : str → bool) (s : str) : bool :=
  match s with
  | c :: s' => atom_ok a c && (plus a k s' || k s')
  | [] => false
  end.

(** Does the pattern match a prefix of [s]?  [start] tells whether [s] is
    the whole subject string. *)
Fixpoint matches (p : list item) (start : bool) (s : str) : bool :=
  match p with
  | [] => true
  | Caret :: p' => start && matches p' start s
  | One a :: p' =>
      match s with
      | c :: s' => atom_ok a c && matches p' false s'
      | [] => false
      end
  | Plus a :: p' => plus a (matches p' false) s
  | Dollar :: p' => at_end s && matches p' start s
  end.

(** [pattern.match(s)], as a truth value. *)
Definition re_match (p : list item) (s : str) : bool := matches p true s.

End Re.

(** ** CRIndexParser *)
Module CRIndexParser.

(** [re.compile(r"^cr.+\.html$")] *)
Definition TRANSCRIPT_RE : list Re.item :=
  [Re.Caret; Re.One (Re.Chr 99); Re.One (Re.Chr 114); Re.Plus Re.Dot;
   Re.One (Re.Chr 46); Re.One (Re.Chr 104); Re.One (Re.Chr 116);
   Re.One (Re.Chr 109); Re.One (Re.Chr 108); Re.Dollar].

Record state : Type := mk {
  in_main : bool;
  transcript_files : gset (list N)
}.

(** [__init__] *)
Definition init : state := {| in_main := false; transcript_files := ∅ |}.

(** [attr_dict.get("href")], with [None] both for a missing attribute and
    for one without a value. *)
Definition get_href (attrs : attr_list) : option str :=
  match dict_of attrs !! lit "href" with
  | Some v => v
  | None => None
  end.

Definition handle_starttag (s : state) (tag : str) (attrs : attr_list)
    : result state :=
  if bool_decide (tag = lit "main") then
    Ok {| in_main := true; transcript_files := transcript_files s |}
  else if bool_decide (tag = lit "a") && in_main s then
    match get_href attrs with
    | Some href =>
        if Re.re_match TRANSCRIPT_RE href then
          Ok {| in_main := in_main s;
                transcript_files := transcript_files s ∪ {[ href ]} |}
        else Ok s
    | None => Ok s
    end
  else Ok s.

Definition handle_endtag (s : state) (tag : str) : result state :=
  if bool_decide (tag = lit "main") then
    Ok {| in_main := false; transcript_files := transcript_files s |}
  else Ok s.

(** [handle_data] is the inherited one, which does nothing. *)
Definition step (s : state) (e : event) : result state :=
  match e with
  | StartTag tag attrs => handle_starttag s tag attrs
  | EndTag tag => handle_endtag s tag
  | Data _ => Ok s
  end.

(** [index = CRIndexParser(); index.feed(...)] *)
Definition feed (evs : list event) : result state := run step init evs.

End CRIndexParser.

(** ** CRTranscriptParser *)
Module CRTranscriptParser.

(** An element of [self.lines]: a dict with the keys ["name"] and
    ["text"]. *)
Abbreviation line := (gmap (list N) (list N)) (only parsing).

Record state : Type := mk {
  in_lines : bool;
  lines : list line;
  process : option str
}.

(** [__init__] *)
Definition init : state :=
  {| in_lines := false; lines := []; process := None |}.

Definition handle_starttag (s : state) (tag : str) (attrs : attr_list)
    : result state :=
  if bool_decide (tag = lit "div")
     && bool_decide ((lit "id", Some (lit "lines")) ∈ attrs) then
    Ok {| in_lines := true; lines := lines s; process := process s |}
  else if bool_decide (tag = lit "strong") && in_lines s then
    Ok {| in_lines := in_lines s; lines := lines s;
          process := Some (lit "name") |}
  else if bool_decide (tag = lit "dd") && in_lines s then
    Ok {| in_lines := in_lines s; lines := lines s;
          process := Some (lit "text") |}
  else Ok s.

(** [if self.process:] *)
Definition process_truthy (p : option str) : bool :=
  match p with
  | Some v => truthy v
  | None => false
  end.

(** The assignment [cur_dat["text"] = v].  [cur_dat] is the last element
    of [self.lines] itself when the list is not empty, so the assignment
    shows in the list; over an empty list [cur_dat] is a fresh dict that
    nothing else refers to, and the assignment is lost. *)
Definition store_cur (ls : list line) (d : line) : list line :=
  match ls with
  | [] => []
  | _ :: _ => <[pred (length ls) := d]> ls
  end.

(** The body of the [elif self.process == "text":] branch. *)
Definition handle_text (ls : list line) (data : str) : result (list line) :=
  cur_dat ← (if bool_decide (ls ≠ []) then getitem_last ls else Ok ∅);
  if bool_decide (is_Some (cur_dat !! lit "text")) then
    old ← getitem cur_dat (lit "text");
    Ok (store_cur ls (<[lit "text" := old ++ lit " " ++ strip data]> cur_dat))
  else
    Ok (store_cur ls (<[lit "text" := strip data]> cur_dat)).

Definition handle_data (s : state) (data : str) : result state :=
  ls ← (if process_truthy (process s) then
          if bool_decide (process s = Some (lit "name")) then
            Ok (lines s ++ [ {[ lit "name" := strip data ]} ])
          else if bool_decide (process s = Some (lit "text")) then
            handle_text (lines s) data
          else Ok (lines s)
        else Ok (lines s));
  Ok {| in_lines := in_lines s; lines := ls; process := None |}.

(** [handle_endtag] is the inherited one, which does nothing. *)
Definition step (s : state) (e : event) : result state :=
  match e with
  | StartTag tag attrs => handle_starttag s tag attrs
  | EndTag _ => Ok s
  | Data data => handle_data s data
  end.

(** [parser = CRTranscriptParser(); parser.feed(...)] *)
Definition feed (evs : list event) : result state := run step init evs.

(** The records handed to the caller, [parser.lines]. *)
Definition parse (evs : list event) : result (list line) :=
  s ← feed evs; Ok (lines s).

End CRTranscriptParser.

(** ** The rendering loop of [main] *)

(** One iteration of [for line in parser.lines:], as the text it writes. *)
Definition render_line (include_names : bool)
    (line : gmap (list N) (list N)) : result str :=
  pre ← (if include_names && bool_decide (is_Some (line !! lit "name")) then
           n ← getitem line (lit "name");
           Ok (lit "**" ++ n ++ lit "**: ")
         else Ok []);
  txt ← (if bool_decide (is_Some (line !! lit "text")) then
           t ← getitem line (lit "text");
           Ok (t ++ [10])
         else Ok []);
  Ok (pre ++ txt).

(** Everything written to [out_f]. *)
Fixpoint render (include_names : bool)
    (ls : list (gmap (list N) (list N))) : result str :=
  match ls with
  | [] => Ok []
  | l :: ls' =>
      a ← render_line include_names l;
      b ← render include_names ls';
      Ok (a ++ b)
  end.

(** ** Vocabulary of the properties *)

(** The line feed, ["\n"]. *)
Definition nl : list N := [10].

(** The open tag of the lines container: a [div] whose attribute list holds
    the pair [("id", "lines")]. *)
Definition is_lines_container (e : event) : bool :=
  match e with
  | StartTag tag attrs =>
      bool_decide (tag = lit "div")
      && bool_decide ((lit "id", Some (lit "lines")) ∈ attrs)
  | _ => false
  end.

Definition is_starttag (e : event) : bool :=
  match e with
  | StartTag _ _ => true
  | _ => false
  end.

(** A callback that is neither text data nor the open tag of a speaker-name
    marker ([strong]) or of a dialogue marker ([dd]). *)
Definition other_tag (e : event) : bool :=
  match e with
  | StartTag tag _ =>
      negb (bool_decide (tag = lit "strong"))
      && negb (bool_decide (tag = lit "dd"))
  | EndTag _ => true
  | Data _ => false
  end.

(** A callback that is not the open tag of a marker; text data is allowed. *)
Definition no_marker (e : event) : bool :=
  match e with
  | Data _ => true
  | _ => other_tag e
  end.

(** A Name event: the open tag of a speaker-name marker, any tags that are
    not markers, then the text data. *)
Definition name_event (attrs : list (list N * option (list N)))
    (tags : list event) (data : list N) : list event :=
  StartTag (lit "strong") attrs :: tags ++ [Data data].

(** A Text event, likewise, behind a dialogue marker. *)
Definition text_event (attrs : list (list N * option (list N)))
    (tags : list event) (data : list N) : list event :=
  StartTag (lit "dd") attrs :: tags ++ [Data data].

(** The event sequence of the worked example. *)
Definition example_events : list event :=
  StartTag (lit "div") [(lit "id", Some (lit "lines"))]
  :: name_event [] [] (lit "Matt")
  ++ text_event [] [] (lit "Welcome back.")
  ++ name_event [] [] (lit "Laura")
  ++ text_event [] [] (lit "Thanks!")
  ++ text_event [] [] (lit "Let's go.").


(** The strings [TRANSCRIPT_RE] accepts: ["cr"], then one character or
    more, none of them a line feed, then [".html"], then nothing or one
    final line feed. *)
Definition transcript_name (h : list N) : Prop :=
  ∃ mid, mid ≠ [] ∧ (10 ∉ mid)
         ∧ (h = lit "cr" ++ mid ++ lit ".html"
            ∨ h = lit "cr" ++ mid ++ lit ".html" ++ nl).

(** Being inside the main region, read off the input alone: a [main] open
    tag has come and no [main] close tag has come after it.  With nested or
    repeated [main] elements the last open or close tag seen decides. *)
Definition main_is_open (pre : list event) : Prop :=
  ∃ before attrs since,
    pre = before ++ StartTag (lit "main") attrs :: since
    ∧ EndTag (lit "main") ∉ since.

(** The target of a hyperlink, read off its attribute list: the value of
    its [href] attribute, the last one if the attribute is repeated. *)
Definition href_target (attrs : list (list N * option (list N)))
    (h : list N) : Prop :=
  ∃ attrs1 attrs2,
    attrs = attrs1 ++ (lit "href", Some h) :: attrs2
    ∧ Forall (fun kv => kv.1 ≠ lit "href") attrs2.

(** The input links to [h] inside the main region: it holds an [a] open
    tag whose target is the transcript file name [h], at a point where the
    main region is open. *)
Definition linked_in_main (evs : list event) (h : list N) : Prop :=
  ∃ pre attrs post,
    evs = pre ++ StartTag (lit "a") attrs :: post
    ∧ main_is_open pre
    ∧ href_target attrs h
    ∧ transcript_name h.

(** ** The remaining pure steps of [main] *)

(** [to_download = available_files - present_files] *)
Definition to_download (available present : gset (list N)) : gset (list N) :=
  available ∖ present.

(** [s.rfind(c)] for a single character [c]: the index of its last
    occurrence, or [-1]. *)
Fixpoint rfind_from (c : N) (s : list N) (i : Z) (found : Z) : Z :=
  match s with
  | [] => found
  | x :: s' => rfind_from c s' (i + 1)%Z (if x =? c then i else found)
  end.

Definition rfind (c : N) (s : list N) : Z := rfind_from c s 0%Z (-1)%Z.

(** [filepath.stem] on the file name, as [pathlib] computes it: the name up
    to its last dot, when that dot is neither the first nor the last
    character. *)
Definition stem (name : list N) : list N :=
  let i := rfind 46 name in
  if ((0 <? i)%Z && (i <? Z.of_nat (length name) - 1)%Z)%bool
  then take (Z.to_nat i) name
  else name.

(** [filepath.stem + ".md"], the name of the output file. *)
Definition output_name (name : list N) : list N := stem name ++ lit ".md".

(** What the rendering loop writes for one record when names are left out:
    its text and a line feed, or nothing. *)
Definition text_line (r : gmap (list N) (list N)) : list N :=
  match r !! lit "text" with
  | Some t => t ++ nl
  | None => []
  end.

(** The bolded-speaker prefix of one record, or nothing. *)
Definition name_prefix (r : gmap (list N) (list N)) : list N :=
  match r !! lit "name" with
  | Some n => lit "**" ++ n ++ lit "**: "
  | None => []
  end.

(** No leading and no trailing whitespace. *)
Definition trimmed (s : list N) : Prop :=
  (∀ c, head s = Some c → isspace c = false)
  ∧ (∀ c, last s = Some c → isspace c = false).

(** The open tag of the main region of the index. *)
Definition is_main_open (e : event) : bool :=
  match e with
  | StartTag tag _ => bool_decide (tag = lit "main")
  | _ => false
  end.

(** A record and a later version of it: the same speaker, and a text that
    has only been appended to. *)
Definition extends (r r' : gmap (list N) (list N)) : Prop :=
  r' !! lit "name" = r !! lit "name"
  ∧ ∀ t, r !! lit "text" = Some t →
         ∃ t', r' !! lit "text" = Some t' ∧ t `prefix_of` t'.


(** ** General facts *)

Lemma bind_Ok {A B : Type} (a : A) (k : A → result B) :
  (Ok a ≫= k) = k a.
Proof. reflexivity. Qed.

Lemma run_app {S : Type} (step : S → event → result S) (s : S)
    (evs1 evs2 : list event) :
  run step s (evs1 ++ evs2) = (s' ← run step s evs1; run step s' evs2).
Proof.
  revert s. induction evs1 as [|e evs1 IH]; intros s; cbn [run app].
  - reflexivity.
  - destruct (step s e) as [s1|x]; cbn; [apply IH | reflexivity].
Qed.

Lemma run_total {S : Type} (step : S → event → result S) :
  (∀ s e, ∃ s', step s e = Ok s') →
  ∀ evs s, ∃ s', run step s evs = Ok s'.
Proof.
  intros Hstep. induction evs as [|e evs IH]; intros s; cbn [run].
  - by exists s.
  - destruct (Hstep s e) as [s1 ->]. rewrite bind_Ok. apply IH.
Qed.

Lemma run_invariant {S : Type} (step : S → event → result S) (P : S → Prop) :
  (∀ s e s', P s → step s e = Ok s' → P s') →
  ∀ evs s s', P s → run step s evs = Ok s' → P s'.
Proof.
  intros Hstep. induction evs as [|e evs IH]; intros s s' HP; cbn [run].
  - by intros [= <-].
  - destruct (step s e) as [s1|x] eqn:E; cbn; [|done].
    apply IH. by eapply Hstep.
Qed.

Lemma store_cur_snoc (l : list (gmap (list N) (list N)))
    (x d : gmap (list N) (list N)) :
  CRTranscriptParser.store_cur (l ++ [x]) d = l ++ [d].
Proof.
  unfold CRTranscriptParser.store_cur.
  destruct (l ++ [x]) as [|y l'] eqn:E.
  - by destruct l.
  - rewrite <- E, length_app, Nat.add_1_r. cbn [pred length].
    rewrite insert_app_r_alt by lia. by rewrite Nat.sub_diag.
Qed.

Lemma getitem_last_snoc {A : Type} (l : list A) (x : A) :
  getitem_last (l ++ [x]) = Ok x.
Proof. unfold getitem_last. by rewrite last_snoc. Qed.



Lemma dict_of_snoc {V : Type} (l : list (list N * V)) (kv : list N * V) :
  dict_of (l ++ [kv]) = <[kv.1 := kv.2]> (dict_of l).
Proof. unfold dict_of. by rewrite foldl_app. Qed.

Lemma dict_of_absent {V : Type} (l : list (list N * V)) (k : list N) :
  Forall (fun kv => kv.1 ≠ k) l → dict_of l !! k = None.
Proof.
  induction l as [|kv l IH] using rev_ind; intros Hall; [done|].
  apply Forall_app in Hall as [Hl Hkv]. rewrite Forall_singleton in Hkv.
  rewrite dict_of_snoc, lookup_insert_ne by done. by apply IH.
Qed.

Lemma dict_of_last {V : Type} (l1 l2 : list (list N * V)) (k : list N) (v : V) :
  Forall (fun kv => kv.1 ≠ k) l2 → dict_of (l1 ++ (k, v) :: l2) !! k = Some v.
Proof.
  induction l2 as [|kv l2 IH] using rev_ind; intros Hall.
  - by rewrite dict_of_snoc, lookup_insert_eq.
  - apply Forall_app in Hall as [Hl Hkv]. rewrite Forall_singleton in Hkv.
    rewrite app_comm_cons, app_assoc, dict_of_snoc, lookup_insert_ne by done.
    by apply IH.
Qed.

(** ** The transcript extractor, callback by callback *)
Section TranscriptSteps.
Import CRTranscriptParser.

Implicit Types (s : state) (d data : list N) (e : event).
Implicit Types (ls : list (gmap (list N) (list N))).

Lemma handle_text_nil data : handle_text [] data = Ok [].
Proof. reflexivity. Qed.

(** On a non-empty list the branch rewrites the last record in place. *)
Lemma handle_text_snoc ls (x : gmap (list N) (list N)) data :
  handle_text (ls ++ [x]) data =
  Ok (ls ++ [ <[lit "text" :=
                 match x !! lit "text" with
                 | Some old => old ++ lit " " ++ strip data
                 | None => strip data
                 end]> x ]).
Proof.
  unfold handle_text.
  rewrite bool_decide_eq_true_2 by (by destruct ls).
  rewrite getitem_last_snoc, bind_Ok. unfold getitem.
  destruct (x !! lit "text") as [old|] eqn:E.
  - rewrite bool_decide_eq_true_2 by eauto.
    by rewrite bind_Ok, store_cur_snoc.
  - rewrite bool_decide_eq_false_2 by (by intros [? ?]).
    by rewrite store_cur_snoc.
Qed.

Lemma handle_text_total ls data : ∃ ls', handle_text ls data = Ok ls'.
Proof.
  destruct ls as [|x ls _] using rev_ind.
  - eexists. apply handle_text_nil.
  - eexists. apply handle_text_snoc.
Qed.

Lemma handle_data_name s data :
  process s = Some (lit "name") →
  handle_data s data =
  Ok {| in_lines := in_lines s;
        lines := lines s ++ [ {[ lit "name" := strip data ]} ];
        process := None |}.
Proof. intros H. unfold handle_data. by rewrite H. Qed.

Lemma handle_data_text s data :
  process s = Some (lit "text") →
  handle_data s data =
  (ls ← handle_text (lines s) data;
   Ok {| in_lines := in_lines s; lines := ls; process := None |}).
Proof. intros H. unfold handle_data. by rewrite H. Qed.

Lemma handle_data_none s data :
  process s = None →
  handle_data s data =
  Ok {| in_lines := in_lines s; lines := lines s; process := None |}.
Proof. intros H. unfold handle_data. by rewrite H. Qed.

Lemma handle_data_total s data : ∃ s', handle_data s data = Ok s'.
Proof.
  unfold handle_data.
  destruct (process_truthy (process s)); [|by eexists].
  destruct (bool_decide (process s = Some (lit "name"))); [by eexists|].
  destruct (bool_decide (process s = Some (lit "text"))); [|by eexists].
  destruct (handle_text_total (lines s) data) as [ls' ->]. by eexists.
Qed.

Lemma handle_data_process s data s' :
  handle_data s data = Ok s' → process s' = None ∧ in_lines s' = in_lines s.
Proof.
  unfold handle_data.
  destruct (if process_truthy (process s) then _ else _) as [ls|x]; cbn;
    [|done].
  by intros [= <-].
Qed.

Lemma handle_starttag_total s tag attrs :
  ∃ s', handle_starttag s tag attrs = Ok s'.
Proof.
  unfold handle_starttag.
  repeat (match goal with |- context [if ?b then _ else _] => destruct b end);
    by eexists.
Qed.

Lemma transcript_step_total s e : ∃ s', step s e = Ok s'.
Proof.
  destruct e as [tag attrs|tag|data]; cbn [step].
  - apply handle_starttag_total.
  - by eexists.
  - apply handle_data_total.
Qed.

(** Tags that are not markers leave a parser that is inside the lines
    region as it is. *)
Lemma run_other_tags evs s :
  forallb other_tag evs = true → in_lines s = true →
  run step s evs = Ok s.
Proof.
  induction evs as [|e evs IH]; intros Hall Hin; [done|].
  cbn [forallb] in Hall. apply andb_prop in Hall as [He Hall].
  cbn [run]. destruct e as [tag attrs|tag|data]; cbn [other_tag] in He;
    [| |done].
  - apply andb_prop in He as [H1 H2].
    apply negb_true_iff in H1, H2.
    cbn [step]. unfold handle_starttag. rewrite H1, H2, Hin. cbn [andb].
    destruct (_ && _); rewrite bind_Ok.
    + replace (mk true (lines s) (process s)) with s
        by (destruct s; cbn in *; by subst).
      by apply IH.
    + by apply IH.
  - cbn [step]. rewrite bind_Ok. by apply IH.
Qed.

(** Without a pending field, text data and tags that are not markers leave
    such a parser as it is. *)
Lemma run_no_marker evs s :
  forallb no_marker evs = true → in_lines s = true → process s = None →
  run step s evs = Ok s.
Proof.
  induction evs as [|e evs IH]; intros Hall Hin Hp; [done|].
  cbn [forallb] in Hall. apply andb_prop in Hall as [He Hall].
  destruct e as [tag attrs|tag|data].
  - change (StartTag tag attrs :: evs) with ([StartTag tag attrs] ++ evs).
    rewrite run_app.
    rewrite (run_other_tags [StartTag tag attrs] s);
      [|cbn [forallb]; by rewrite andb_true_r|done].
    rewrite bind_Ok. by apply IH.
  - cbn [run step]. rewrite bind_Ok. by apply IH.
  - cbn [run step]. rewrite handle_data_none by done. rewrite bind_Ok.
    replace (mk (in_lines s) (lines s) None) with s
      by (destruct s; cbn in *; by subst).
    by apply IH.
Qed.

End TranscriptSteps.

(** ** Name events and Text events *)
Section TranscriptEvents.
Import CRTranscriptParser.

Implicit Types (s : state) (data : list N) (tags rest : list event).
Implicit Types (attrs : list (list N * option (list N))).

Lemma handle_starttag_strong s attrs :
  in_lines s = true →
  handle_starttag s (lit "strong") attrs =
  Ok {| in_lines := true; lines := lines s; process := Some (lit "name") |}.
Proof.
  intros Hin. unfold handle_starttag.
  rewrite (bool_decide_eq_false_2 (lit "strong" = lit "div")) by discriminate.
  rewrite (bool_decide_eq_true_2 (lit "strong" = lit "strong")) by done.
  by rewrite Hin.
Qed.

Lemma handle_starttag_dd s attrs :
  in_lines s = true →
  handle_starttag s (lit "dd") attrs =
  Ok {| in_lines := true; lines := lines s; process := Some (lit "text") |}.
Proof.
  intros Hin. unfold handle_starttag.
  rewrite (bool_decide_eq_false_2 (lit "dd" = lit "div")) by discriminate.
  rewrite (bool_decide_eq_false_2 (lit "dd" = lit "strong")) by discriminate.
  rewrite (bool_decide_eq_true_2 (lit "dd" = lit "dd")) by done.
  by rewrite Hin.
Qed.

(** A Name event appends one record that holds the stripped name only. *)
Lemma run_name_event s attrs tags data :
  in_lines s = true → forallb other_tag tags = true →
  run step s (name_event attrs tags data) =
  Ok {| in_lines := true;
        lines := lines s ++ [ {[ lit "name" := strip data ]} ];
        process := None |}.
Proof.
  intros Hin Htags. unfold name_event. cbn [run step].
  rewrite handle_starttag_strong, bind_Ok by done.
  rewrite run_app, run_other_tags, bind_Ok by done.
  cbn [run step]. by rewrite handle_data_name.
Qed.

(** A Text event runs the text branch on the records so far. *)
Lemma run_text_event s attrs tags data :
  in_lines s = true → forallb other_tag tags = true →
  run step s (text_event attrs tags data) =
  (ls ← handle_text (lines s) data;
   Ok {| in_lines := true; lines := ls; process := None |}).
Proof.
  intros Hin Htags. unfold text_event. cbn [run step].
  rewrite handle_starttag_dd, bind_Ok by done.
  rewrite run_app, run_other_tags, bind_Ok by done.
  cbn [run step]. rewrite handle_data_text by done. cbn [lines in_lines].
  by destruct (handle_text (lines s) data).
Qed.

End TranscriptEvents.

(** ** Properties of the transcript extractor *)
Section TranscriptProperties.
Import CRTranscriptParser.

Implicit Types (s : state) (data : list N) (evs pre : list event).

(** Before the lines container opens nothing is pending and nothing is
    recorded. *)
Lemma run_outside evs s :
  forallb (fun e => negb (is_lines_container e)) evs = true →
  in_lines s = false → process s = None →
  run step s evs = Ok s.
Proof.
  induction evs as [|e evs IH]; intros Hall Hin Hp; [done|].
  cbn [forallb] in Hall. apply andb_prop in Hall as [He Hall].
  apply negb_true_iff in He.
  cbn [run]. destruct e as [tag attrs|tag|data]; cbn [step].
  - unfold handle_starttag. cbn [is_lines_container] in He.
    rewrite He, Hin, !andb_false_r, bind_Ok. by apply IH.
  - rewrite bind_Ok. by apply IH.
  - rewrite handle_data_none, bind_Ok by done.
    replace (mk (in_lines s) (lines s) None) with s
      by (destruct s; cbn in *; by subst).
    by apply IH.
Qed.

(** With no pending field, callbacks other than open tags change nothing. *)
Lemma run_no_starttag evs s :
  forallb (fun e => negb (is_starttag e)) evs = true → process s = None →
  run step s evs = Ok s.
Proof.
  induction evs as [|e evs IH]; intros Hall Hp; [done|].
  cbn [forallb] in Hall. apply andb_prop in Hall as [He Hall].
  cbn [run]. destruct e as [tag attrs|tag|data]; cbn [step]; [done| |].
  - rewrite bind_Ok. by apply IH.
  - rewrite handle_data_none, bind_Ok by done.
    replace (mk (in_lines s) (lines s) None) with s
      by (destruct s; cbn in *; by subst).
    by apply IH.
Qed.

Lemma handle_text_has_name (ls ls' : list (gmap (list N) (list N))) data :
  Forall (fun r => is_Some (r !! lit "name")) ls →
  handle_text ls data = Ok ls' →
  Forall (fun r => is_Some (r !! lit "name")) ls'.
Proof.
  destruct ls as [|x ls _] using rev_ind.
  - rewrite handle_text_nil. by intros _ [= <-].
  - rewrite handle_text_snoc. intros Hall [= <-].
    apply Forall_app in Hall as [Hls Hx]. apply Forall_app. split; [done|].
    rewrite Forall_singleton in Hx |- *.
    by rewrite lookup_insert_ne by discriminate.
Qed.

Lemma handle_text_length (ls ls' : list (gmap (list N) (list N))) data :
  handle_text ls data = Ok ls' → length ls' = length ls.
Proof.
  destruct ls as [|x ls _] using rev_ind.
  - rewrite handle_text_nil. by intros [= <-].
  - rewrite handle_text_snoc. intros [= <-]. by rewrite !length_app.
Qed.

Lemma step_has_name s e s' :
  Forall (fun r => is_Some (r !! lit "name")) (lines s) →
  step s e = Ok s' →
  Forall (fun r => is_Some (r !! lit "name")) (lines s').
Proof.
  intros Hall. destruct e as [tag attrs|tag|data]; cbn [step].
  - unfold handle_starttag.
    repeat (match goal with
            | |- context [if ?b then _ else _] => destruct b
            end); by intros [= <-].
  - by intros [= <-].
  - unfold handle_data.
    destruct (process_truthy (process s)); [|by intros [= <-]].
    destruct (bool_decide (process s = Some (lit "name"))).
    { intros [= <-]. cbn [lines]. apply Forall_app. split; [done|].
      rewrite Forall_singleton, lookup_singleton_eq. eauto. }
    destruct (bool_decide (process s = Some (lit "text")));
      [|by intros [= <-]].
    destruct (handle_text (lines s) data) as [ls|x] eqn:E; [|done].
    intros [= <-]. cbn [lines]. by eapply handle_text_has_name.
Qed.

(** C1: on the worked example (container open tag, Name "Matt", Text
    "Welcome back.", Name "Laura", Text "Thanks!", Text "Let's go.") the
    extractor returns exactly the two records Matt / "Welcome back." and
    Laura / "Thanks! Let's go.", and the rendering loop with names enabled
    writes exactly "**Matt**: Welcome back.\n**Laura**: Thanks! Let's go.\n". *)
Theorem C1_worked_example :
  parse example_events =
    Ok [ {[ lit "name" := lit "Matt"; lit "text" := lit "Welcome back." ]};
         {[ lit "name" := lit "Laura";
            lit "text" := lit "Thanks! Let's go." ]} ]
  ∧ (ls ← parse example_events; render true ls) =
    Ok (lit "**Matt**: Welcome back." ++ nl
        ++ lit "**Laura**: Thanks! Let's go." ++ nl).
Proof. split; vm_compute; reflexivity. Qed.

(** C2: when the parser is inside the lines region and a Name event is
    followed by two Text events, each behind its own dialogue-marker open
    tag, the parse adds exactly one record for that speaker; its text is the
    stripped data of the first Text event, one space, and the stripped data
    of the second.  Tags that are not markers may stand anywhere in between,
    and unattributed text data anywhere after a consumed text-data event. *)
Theorem C2_second_text_is_appended
    pre s a1 g1 name i1 a2 g2 text1 i2 a3 g3 text2 i3 :
  feed pre = Ok s → in_lines s = true →
  forallb other_tag g1 = true → forallb no_marker i1 = true →
  forallb other_tag g2 = true → forallb no_marker i2 = true →
  forallb other_tag g3 = true → forallb no_marker i3 = true →
  parse (pre ++ name_event a1 g1 name ++ i1
             ++ text_event a2 g2 text1 ++ i2
             ++ text_event a3 g3 text2 ++ i3) =
    Ok (lines s ++
        [ {[ lit "name" := strip name;
             lit "text" := strip text1 ++ lit " " ++ strip text2 ]} ]).
Proof.
  intros Hpre Hin Hg1 Hi1 Hg2 Hi2 Hg3 Hi3. unfold parse, feed.
  rewrite run_app. fold (feed pre). rewrite Hpre, bind_Ok.
  rewrite run_app, run_name_event, bind_Ok by done.
  rewrite run_app, run_no_marker, bind_Ok by done.
  rewrite run_app, run_text_event by done. cbn [lines].
  rewrite handle_text_snoc, !bind_Ok, lookup_singleton_ne by discriminate.
  rewrite run_app, run_no_marker, bind_Ok by done.
  rewrite run_app, run_text_event by done. cbn [lines].
  rewrite handle_text_snoc, !bind_Ok, lookup_insert_eq.
  rewrite run_no_marker, bind_Ok by done. cbn [lines].
  by rewrite insert_insert_eq, insert_singleton_ne by discriminate.
Qed.

Lemma C2_second_text_is_appended_witness :
  parse ([StartTag (lit "div") [(lit "id", Some (lit "lines"))]]
         ++ name_event [] [] (lit " Laura ") ++ [EndTag (lit "strong")]
         ++ text_event [] [] (lit "Thanks!") ++ [EndTag (lit "dd"); Data nl]
         ++ text_event [] [StartTag (lit "em") []] (lit "Let's go. ") ++ []) =
    Ok (lines (mk true [] None) ++
        [ {[ lit "name" := strip (lit " Laura ");
             lit "text" :=
               strip (lit "Thanks!") ++ lit " " ++ strip (lit "Let's go. ") ]} ]).
Proof.
  apply (C2_second_text_is_appended
           [StartTag (lit "div") [(lit "id", Some (lit "lines"))]]
           (mk true [] None)); reflexivity.
Defined.

(** C3: when the parser is inside the lines region and two Name events
    follow each other with no Text event in between, the parse adds two
    separate records, each with its speaker set and no text field; nothing
    is merged across the speaker boundary. *)
Theorem C3_consecutive_names_stay_apart
    pre s a1 g1 name1 i1 a2 g2 name2 i2 :
  feed pre = Ok s → in_lines s = true →
  forallb other_tag g1 = true → forallb no_marker i1 = true →
  forallb other_tag g2 = true → forallb no_marker i2 = true →
  ∃ r1 r2 : gmap (list N) (list N),
    parse (pre ++ name_event a1 g1 name1 ++ i1
               ++ name_event a2 g2 name2 ++ i2) = Ok (lines s ++ [r1; r2])
    ∧ r1 !! lit "name" = Some (strip name1) ∧ r1 !! lit "text" = None
    ∧ r2 !! lit "name" = Some (strip name2) ∧ r2 !! lit "text" = None.
Proof.
  intros Hpre Hin Hg1 Hi1 Hg2 Hi2.
  exists {[ lit "name" := strip name1 ]}, {[ lit "name" := strip name2 ]}.
  split.
  - unfold parse, feed.
    rewrite run_app. fold (feed pre). rewrite Hpre, bind_Ok.
    rewrite run_app, run_name_event, bind_Ok by done.
    rewrite run_app, run_no_marker, bind_Ok by done.
    rewrite run_app, run_name_event, bind_Ok by done.
    rewrite run_no_marker, bind_Ok by done. cbn [lines].
    by rewrite <- app_assoc.
  - by rewrite !lookup_singleton_eq, !lookup_singleton_ne by discriminate.
Qed.

Lemma C3_consecutive_names_stay_apart_witness :
  ∃ r1 r2 : gmap (list N) (list N),
    parse ([StartTag (lit "div") [(lit "id", Some (lit "lines"))]]
           ++ name_event [] [] (lit "Matt") ++ [EndTag (lit "strong")]
           ++ name_event [] [] (lit "Laura") ++ [EndTag (lit "strong")]) =
      Ok (lines (mk true [] None) ++ [r1; r2])
    ∧ r1 !! lit "name" = Some (strip (lit "Matt")) ∧ r1 !! lit "text" = None
    ∧ r2 !! lit "name" = Some (strip (lit "Laura")) ∧ r2 !! lit "text" = None.
Proof.
  apply (C3_consecutive_names_stay_apart
           [StartTag (lit "div") [(lit "id", Some (lit "lines"))]]
           (mk true [] None)); reflexivity.
Defined.

(** C4: whatever the state and the data, [handle_data] returns with
    [process] equal to [None]; from there on, text data and close tags that
    arrive before the next open tag change neither the records nor any other
    part of the parser state. *)
Theorem C4_pending_field_is_reset s data :
  ∃ s', handle_data s data = Ok s'
        ∧ process s' = None
        ∧ ∀ evs, forallb (fun e => negb (is_starttag e)) evs = true →
                 run step s' evs = Ok s'.
Proof.
  destruct (handle_data_total s data) as [s' Hs']. exists s'.
  destruct (handle_data_process _ _ _ Hs') as [Hp _].
  split; [done|]. split; [done|].
  intros evs Hevs. by apply run_no_starttag.
Qed.

Lemma C4_pending_field_is_reset_witness :
  ∃ s', handle_data (mk true [ {[ lit "name" := lit "Matt" ]} ]
                        (Some (lit "text"))) (lit "Welcome back.") = Ok s'
        ∧ process s' = None
        ∧ run step s' [Data (lit "again"); EndTag (lit "dd"); Data nl] = Ok s'.
Proof.
  destruct (C4_pending_field_is_reset
              (mk true [ {[ lit "name" := lit "Matt" ]} ] (Some (lit "text")))
              (lit "Welcome back.")) as [s' [H1 [H2 H3]]].
  exists s'. split; [exact H1|]. split; [exact H2|].
  apply H3. reflexivity.
Defined.

(** C7: a Text event that finds the record list empty, and any text data
    that arrives while no field is pending, is dropped: [handle_data]
    returns without an exception, with the same records, and only
    [process] reset. *)
Theorem C7_unattributed_text_is_dropped s data :
  (process s = Some (lit "text") ∧ lines s = []) ∨ process s = None →
  handle_data s data =
    Ok {| in_lines := in_lines s; lines := lines s; process := None |}.
Proof.
  intros [[Hp Hls]|Hp].
  - rewrite handle_data_text by done. by rewrite Hls, handle_text_nil.
  - by apply handle_data_none.
Qed.

Lemma C7_unattributed_text_is_dropped_witness :
  handle_data (mk true [] (Some (lit "text"))) (lit "Welcome back.") =
    Ok (mk true [] None)
  ∧ handle_data (mk true [ {[ lit "name" := lit "Matt" ]} ] None) (lit "x") =
    Ok (mk true [ {[ lit "name" := lit "Matt" ]} ] None).
Proof.
  split.
  - apply (C7_unattributed_text_is_dropped (mk true [] (Some (lit "text")))).
    left. split; reflexivity.
  - apply (C7_unattributed_text_is_dropped
             (mk true [ {[ lit "name" := lit "Matt" ]} ] None)).
    right. reflexivity.
Defined.

(** C8: when no open tag of the input is the lines container (a [div]
    carrying the pair id = "lines"), the extractor returns the empty list of
    records. *)
Theorem C8_no_container_no_records evs :
  forallb (fun e => negb (is_lines_container e)) evs = true →
  parse evs = Ok [].
Proof.
  intros Hevs. unfold parse, feed. by rewrite run_outside.
Qed.

Lemma C8_no_container_no_records_witness :
  parse [StartTag (lit "div") [(lit "id", Some (lit "other"))];
         StartTag (lit "strong") []; Data (lit "Matt");
         StartTag (lit "dd") []; Data (lit "Welcome back.");
         EndTag (lit "div")] = Ok [].
Proof. apply C8_no_container_no_records. reflexivity. Defined.

(** C10: for every input the extractor returns, and every record of the
    result has its speaker set.  Records are added by the name branch only:
    [handle_data] lengthens the list by one when the pending field is
    "name" and leaves its length alone otherwise. *)
Theorem C10_every_record_has_a_speaker :
  (∀ evs, ∃ ls, parse evs = Ok ls
                ∧ Forall (fun r => is_Some (r !! lit "name")) ls)
  ∧ (∀ s data, ∃ s', handle_data s data = Ok s'
       ∧ length (lines s') =
         (length (lines s)
          + (if bool_decide (process s = Some (lit "name")) then 1 else 0))%nat).
Proof.
  split.
  - intros evs. unfold parse.
    destruct (run_total step transcript_step_total evs init) as [s Hs].
    unfold feed. rewrite Hs, bind_Ok. exists (lines s). split; [done|].
    eapply (run_invariant step
              (fun s => Forall (fun r => is_Some (r !! lit "name")) (lines s)));
      [apply step_has_name| |exact Hs].
    constructor.
  - intros s data. destruct (handle_data_total s data) as [s' Hs'].
    exists s'. split; [done|]. revert Hs'. unfold handle_data.
    destruct (process_truthy (process s)) eqn:Ht.
    + destruct (bool_decide (process s = Some (lit "name"))).
      { intros [= <-]. cbn [lines]. by rewrite length_app. }
      destruct (bool_decide (process s = Some (lit "text"))).
      * destruct (handle_text (lines s) data) as [ls|x] eqn:E; [|done].
        intros [= <-]. cbn [lines].
        rewrite (handle_text_length _ _ _ E). lia.
      * intros [= <-]. cbn [lines]. lia.
    + intros [= <-]. cbn [lines]. case_bool_decide as Hn; [|lia].
      rewrite Hn in Ht. discriminate.
Qed.

End TranscriptProperties.

(** ** The pattern of transcript file names *)
Section Pattern.
Import Re.

Implicit Types (s rest mid : list N) (k : list N → bool) (p : list item).

Lemma at_end_spec s : at_end s = true ↔ s = [] ∨ s = nl.
Proof.
  unfold at_end, nl. destruct s as [|c [|c' s']].
  - split; [by left|done].
  - rewrite N.eqb_eq. split; [intros ->; by right|].
    by intros [|[= ->]].
  - split; [done|]. by intros [|].
Qed.

(** [.+] takes a non-empty run of characters other than the line feed. *)
Lemma plus_dot k s :
  plus Dot k s = true
  ↔ ∃ mid rest, s = mid ++ rest ∧ mid ≠ [] ∧ (10 ∉ mid) ∧ k rest = true.
Proof.
  induction s as [|c s IH]; cbn [plus].
  - split; [done|]. intros (mid & rest & E & Hne & _). by destruct mid.
  - cbn [atom_ok]. rewrite andb_true_iff, orb_true_iff, negb_true_iff,
      N.eqb_neq, IH.
    split.
    + intros [Hc [(mid & rest & -> & Hne & Hnl & Hk)|Hk]].
      * exists (c :: mid), rest. repeat split; [done| |done].
        rewrite not_elem_of_cons. split; [congruence|done].
      * exists [c], s. repeat split; [done| |done].
        rewrite not_elem_of_cons. split; [congruence|]. apply not_elem_of_nil.
    + intros (mid & rest & E & Hne & Hnl & Hk).
      destruct mid as [|c' mid]; [done|]. injection E as -> ->.
      apply not_elem_of_cons in Hnl as [Hc Hnl].
      split; [congruence|].
      destruct mid as [|c'' mid]; [by right|].
      left. exists (c'' :: mid), rest. done.
Qed.

Lemma transcript_re_spec (h : list N) :
  re_match CRIndexParser.TRANSCRIPT_RE h = true ↔ transcript_name h.
Proof.
  unfold re_match, CRIndexParser.TRANSCRIPT_RE, transcript_name.
  change (lit "cr") with [99; 114].
  change (lit ".html") with [46; 104; 116; 109; 108].
  cbn [matches andb]. split.
  - destruct h as [|c1 [|c2 s]]; [done|by rewrite andb_false_r|].
    cbn [atom_ok]. rewrite !andb_true_iff, !N.eqb_eq.
    intros (-> & -> & H).
    apply plus_dot in H as (mid & rest & -> & Hne & Hnl & H).
    destruct rest as [|r1 [|r2 [|r3 [|r4 [|r5 tl]]]]];
      rewrite ?andb_false_r in H; try done.
    cbn [atom_ok] in H. rewrite !andb_true_iff, !N.eqb_eq in H.
    destruct H as (-> & -> & -> & -> & -> & H & _).
    apply at_end_spec in H as [-> | ->]; exists mid; eauto.
  - intros (mid & Hne & Hnl & H).
    assert (∃ tl, (tl = [] ∨ tl = nl)
                  ∧ h = 99 :: 114 :: mid ++ 46 :: 104 :: 116 :: 109 :: 108 :: tl)
      as (tl & Htl & ->).
    { destruct H as [-> | ->]; [exists [] | exists nl]; split; eauto. }
    cbn [atom_ok]. rewrite !N.eqb_refl. cbn [andb].
    apply plus_dot. exists mid. eexists.
    split; [done|]. split; [done|]. split; [done|].
    cbn [atom_ok]. rewrite !N.eqb_refl, andb_true_r. cbn [andb].
    by apply at_end_spec.
Qed.

End Pattern.

(** ** Properties of the index extractor *)
Section IndexProperties.
Import CRIndexParser.

Implicit Types (s : state) (evs pre post : list event) (h : list N).
Implicit Types (attrs : list (list N * option (list N))).

Lemma index_step_total s e : ∃ s', step s e = Ok s'.
Proof.
  destruct e as [tag attrs|tag|data]; cbn [step].
  - unfold handle_starttag.
    repeat (match goal with
            | |- context [if ?b then _ else _] => destruct b
            | |- context [match ?o with Some _ => _ | None => _ end] =>
                destruct o
            end); by eexists.
  - unfold handle_endtag. destruct (bool_decide _); by eexists.
  - by eexists.
Qed.

(** An [a] open tag inside the main region adds its [href] when the pattern
    accepts it, and changes nothing otherwise. *)
Lemma handle_starttag_a s attrs h :
  in_main s = true → get_href attrs = Some h →
  handle_starttag s (lit "a") attrs =
    Ok (if Re.re_match TRANSCRIPT_RE h
        then {| in_main := true;
                transcript_files := transcript_files s ∪ {[ h ]} |}
        else s).
Proof.
  intros Hin Hh. unfold handle_starttag.
  rewrite (bool_decide_eq_false_2 (lit "a" = lit "main")) by discriminate.
  rewrite (bool_decide_eq_true_2 (lit "a" = lit "a")) by done.
  rewrite Hin, Hh. cbn [andb]. by destruct (Re.re_match _ _).
Qed.

Lemma get_href_single (v : option (list N)) :
  get_href [(lit "href", v)] = v.
Proof.
  unfold get_href, dict_of. cbn [foldl fst snd].
  rewrite lookup_insert_eq. by destruct v.
Qed.

(** What one callback does to the set of file names. *)
Lemma index_step_files s e s' h :
  step s e = Ok s' →
  h ∈ transcript_files s'
  ↔ h ∈ transcript_files s
    ∨ ∃ attrs, e = StartTag (lit "a") attrs ∧ in_main s = true
               ∧ get_href attrs = Some h
               ∧ Re.re_match TRANSCRIPT_RE h = true.
Proof.
  destruct e as [tag attrs|tag|data]; cbn [step].
  - unfold handle_starttag. case_bool_decide as Hmain.
    { intros [= <-]. cbn [transcript_files]. split; [by left|].
      intros [?|(a & [= -> ->] & _)]; [done|]. discriminate. }
    case_bool_decide as Ha; cbn [andb].
    2:{ intros [= <-]. split; [by left|].
        intros [?|(a & [= -> ->] & _)]; done. }
    destruct (in_main s) eqn:Hin.
    2:{ intros [= <-]. split; [by left|].
        intros [?|(a & _ & ? & _)]; done. }
    destruct (get_href attrs) as [href|] eqn:Hh.
    2:{ intros [= <-]. split; [by left|].
        intros [?|(a & [= _ <-] & _ & ? & _)]; [done|congruence]. }
    destruct (Re.re_match TRANSCRIPT_RE href) eqn:Hre.
    + intros [= <-]. cbn [transcript_files].
      rewrite elem_of_union, elem_of_singleton. split.
      * intros [?| ->]; [by left|]. right. exists attrs. by subst tag.
      * intros [?|(a & [= _ <-] & _ & ? & _)]; [by left|].
        right. congruence.
    + intros [= <-]. split; [by left|].
      intros [?|(a & [= _ <-] & _ & ? & ?)]; [done|congruence].
  - unfold handle_endtag. destruct (bool_decide _); intros [= <-];
      (split; [by left|]); by intros [?|(a & ? & _)].
  - intros [= <-]. split; [by left|]. by intros [?|(a & ? & _)].
Qed.

(** [attr_dict.get("href")] returns the target of the link. *)
Lemma get_href_target attrs h : get_href attrs = Some h ↔ href_target attrs h.
Proof.
  split.
  - induction attrs as [|kv attrs IH] using rev_ind; [done|].
    unfold get_href. rewrite dict_of_snoc.
    destruct (decide (kv.1 = lit "href")) as [Hk|Hk].
    + rewrite Hk, lookup_insert_eq. intros Hv.
      exists attrs, []. split; [|constructor].
      destruct kv as [k v]. cbn [fst snd] in *. by subst.
    + rewrite lookup_insert_ne by done. intros H.
      destruct (IH H) as (a1 & a2 & -> & Ha2).
      exists a1, (a2 ++ [kv]). split.
      * by rewrite <- app_assoc, <- app_comm_cons.
      * apply Forall_app. split; [done|]. by apply Forall_singleton.
  - intros (a1 & a2 & -> & Ha2). unfold get_href.
    by rewrite dict_of_last.
Qed.

(** What one callback does to the flag. *)
Lemma index_step_in_main s e s' :
  step s e = Ok s' →
  in_main s' = true
  ↔ (∃ attrs, e = StartTag (lit "main") attrs)
    ∨ (e ≠ EndTag (lit "main") ∧ in_main s = true).
Proof.
  destruct e as [tag attrs|tag|data]; cbn [step].
  - unfold handle_starttag. case_bool_decide as Hmain.
    { intros [= <-]. subst tag. split; [|done]. left. by exists attrs. }
    assert (∀ s1, in_main s1 = in_main s →
              in_main s1 = true
              ↔ (∃ attrs0, StartTag tag attrs = StartTag (lit "main") attrs0)
                ∨ (StartTag tag attrs ≠ EndTag (lit "main")
                   ∧ in_main s = true)) as Hsame.
    { intros s1 ->. split; [by right|].
      intros [(a & [= ? _])|[_ ?]]; done. }
    destruct (_ && _); [|intros [= <-]; by apply Hsame].
    destruct (get_href attrs) as [href|]; [|intros [= <-]; by apply Hsame].
    destruct (Re.re_match _ _); intros [= <-]; by apply Hsame.
  - unfold handle_endtag. case_bool_decide as Hmain.
    + intros [= <-]. subst tag. cbn [in_main]. split; [done|].
      intros [(a & ?)|[? _]]; done.
    + intros [= <-]. split; [right; split; [congruence|done]|].
      intros [(a & ?)|[_ ?]]; done.
  - intros [= <-]. split; [by right|]. intros [(a & ?)|[_ ?]]; done.
Qed.

Lemma main_is_open_snoc evs e :
  main_is_open (evs ++ [e])
  ↔ (∃ attrs, e = StartTag (lit "main") attrs)
    ∨ (e ≠ EndTag (lit "main") ∧ main_is_open evs).
Proof.
  split.
  - intros (before & attrs & since & E & Hno).
    destruct since as [|x since _] using rev_ind.
    + apply app_inj_tail in E as [_ ->]. left. by exists attrs.
    + rewrite app_comm_cons, app_assoc in E.
      apply app_inj_tail in E as [-> ->].
      apply not_elem_of_app in Hno as [Hno Hx].
      right. split.
      * intros ->. apply Hx. by apply list_elem_of_singleton.
      * by exists before, attrs, since.
  - intros [(attrs & ->)|[He (before & attrs & since & -> & Hno)]].
    + exists evs, attrs, []. split; [done|]. apply not_elem_of_nil.
    + exists before, attrs, (since ++ [e]). split.
      * by rewrite <- app_assoc, <- app_comm_cons.
      * apply not_elem_of_app. split; [done|].
        intros ?%list_elem_of_singleton. congruence.
Qed.

(** The flag of the parser is set exactly when the main region of the input
    read so far is open. *)
Lemma feed_in_main evs :
  ∃ s, feed evs = Ok s ∧ (in_main s = true ↔ main_is_open evs).
Proof.
  induction evs as [|e evs IH] using rev_ind.
  - exists init. split; [done|]. cbn [init in_main]. split; [done|].
    intros (before & attrs & since & E & _). by destruct before.
  - destruct IH as (s & Hs & IH).
    destruct (index_step_total s e) as [s' Hs'].
    exists s'. split.
    + unfold feed in *. rewrite run_app, Hs, bind_Ok. cbn [run].
      by rewrite Hs'.
    + by rewrite (index_step_in_main _ _ _ Hs'), main_is_open_snoc, IH.
Qed.

Lemma linked_in_main_snoc evs e h :
  linked_in_main (evs ++ [e]) h
  ↔ linked_in_main evs h
    ∨ ∃ attrs, e = StartTag (lit "a") attrs ∧ main_is_open evs
               ∧ href_target attrs h ∧ transcript_name h.
Proof.
  split.
  - intros (pre & attrs & post & E & Hin & Hh & Hre).
    destruct post as [|x post _] using rev_ind.
    + apply app_inj_tail in E as [-> ->]. right. by exists attrs.
    + rewrite app_comm_cons, app_assoc in E.
      apply app_inj_tail in E as [-> ->]. left.
      by exists pre, attrs, post.
  - intros [(pre & attrs & post & -> & Hin & Hh & Hre)
           |(attrs & -> & Hin & Hh & Hre)].
    + exists pre, attrs, (post ++ [e]).
      by rewrite <- app_assoc, <- app_comm_cons.
    + by exists evs, attrs, [].
Qed.

(** The result set holds exactly the names the input links to inside its
    main region. *)
Lemma feed_files evs :
  ∃ s, feed evs = Ok s
       ∧ ∀ h, h ∈ transcript_files s ↔ linked_in_main evs h.
Proof.
  induction evs as [|e evs IH] using rev_ind.
  - exists init. split; [done|]. intros h. cbn [init transcript_files].
    split; [by intros ?%not_elem_of_empty|].
    intros (pre & attrs & post & E & _). by destruct pre.
  - destruct IH as (s & Hs & IH).
    destruct (feed_in_main evs) as (s0 & Hs0 & Hin).
    rewrite Hs in Hs0. injection Hs0 as <-.
    destruct (index_step_total s e) as [s' Hs'].
    exists s'. split.
    + unfold feed in *. rewrite run_app, Hs, bind_Ok. cbn [run].
      by rewrite Hs'.
    + intros h. rewrite (index_step_files _ _ _ _ Hs').
      rewrite linked_in_main_snoc, IH.
      apply or_iff_compat_l. split.
      * intros (attrs & -> & H1 & H2 & H3). exists attrs.
        split; [done|]. split; [by apply Hin|].
        split; [by apply get_href_target|by apply transcript_re_spec].
      * intros (attrs & -> & H1 & H2 & H3). exists attrs.
        split; [done|]. split; [by apply Hin|].
        split; [by apply get_href_target|by apply transcript_re_spec].
Qed.

Lemma handle_starttag_main s attrs :
  handle_starttag s (lit "main") attrs =
    Ok {| in_main := true; transcript_files := transcript_files s |}.
Proof. unfold handle_starttag. by rewrite bool_decide_eq_true_2. Qed.

Lemma handle_starttag_a_outside s attrs :
  in_main s = false → handle_starttag s (lit "a") attrs = Ok s.
Proof.
  intros Hin. unfold handle_starttag.
  rewrite (bool_decide_eq_false_2 (lit "a" = lit "main")) by discriminate.
  by rewrite Hin, andb_false_r.
Qed.

Lemma handle_endtag_main s :
  handle_endtag s (lit "main") =
    Ok {| in_main := false; transcript_files := transcript_files s |}.
Proof. unfold handle_endtag. by rewrite bool_decide_eq_true_2. Qed.

(** C5: for every index document the extractor returns, and a file name is
    in its result set if and only if the document links to it inside the
    main region: it holds an [a] open tag whose target is that transcript
    file name, after a [main] open tag with no [main] close tag in between.
    In particular a document with a link before the main region, an accepted
    link inside it and a link after it yields the inside one only, whatever
    the outside links point to. *)
Theorem C5_links_count_inside_main_only :
  (∀ evs, ∃ s, feed evs = Ok s
               ∧ ∀ h, h ∈ transcript_files s ↔ linked_in_main evs h)
  ∧ (∀ h_in h_out,
       Re.re_match TRANSCRIPT_RE h_in = true →
       ∃ s, feed [StartTag (lit "a") [(lit "href", Some h_out)];
                  StartTag (lit "main") [];
                  StartTag (lit "a") [(lit "href", Some h_in)];
                  EndTag (lit "main");
                  StartTag (lit "a") [(lit "href", Some h_out)]] = Ok s
            ∧ transcript_files s = {[ h_in ]}).
Proof.
  split; [apply feed_files|].
  intros h_in h_out Hre. eexists. split.
  - unfold feed. cbn [run step].
    rewrite handle_starttag_a_outside, bind_Ok by done.
    rewrite handle_starttag_main, bind_Ok.
    rewrite (handle_starttag_a _ _ h_in), Hre, bind_Ok
      by (done || apply get_href_single).
    rewrite handle_endtag_main, bind_Ok.
    rewrite handle_starttag_a_outside, bind_Ok by done.
    reflexivity.
  - cbn [transcript_files init]. by rewrite (left_id_L ∅ (∪)).
Qed.

Lemma C5_links_count_inside_main_only_witness :
  ∃ s, feed [StartTag (lit "a") [(lit "href", Some (lit "cr9.html"))];
             StartTag (lit "main") [];
             StartTag (lit "a") [(lit "href", Some (lit "cr1.html"))];
             EndTag (lit "main");
             StartTag (lit "a") [(lit "href", Some (lit "cr9.html"))]] = Ok s
       ∧ transcript_files s = {[ lit "cr1.html" ]}.
Proof.
  apply (proj2 C5_links_count_inside_main_only
           (lit "cr1.html") (lit "cr9.html")).
  reflexivity.
Defined.




End IndexProperties.

(** ** Both extractors *)

(** C9: whatever the sequence of open-tag, close-tag and text-data
    callbacks, and whatever state it starts from, neither extractor raises:
    each run returns a state.  The read of the last record in the text
    branch is guarded, so the branch returns on the empty list too. *)
Theorem C9_extractors_never_raise (evs : list event) :
  (∀ s, ∃ s', run CRIndexParser.step s evs = Ok s')
  ∧ (∀ s, ∃ s', run CRTranscriptParser.step s evs = Ok s')
  ∧ (∀ data, CRTranscriptParser.handle_text [] data = Ok []).
Proof.
  split; [|split].
  - apply run_total, index_step_total.
  - apply run_total, transcript_step_total.
  - apply handle_text_nil.
Qed.

(** ** Facts about [strip] *)
Section Strip.

Implicit Types (s ws : list N) (c : N).

Lemma lstrip_head s c : head (lstrip s) = Some c → isspace c = false.
Proof.
  induction s as [|x s IH]; cbn [lstrip]; [done|].
  destruct (isspace x) eqn:E; [done|]. cbn [head]. by intros [= <-].
Qed.

Lemma lstrip_split s : ∃ ws, s = ws ++ lstrip s.
Proof.
  induction s as [|x s [ws IH]]; cbn [lstrip]; [by exists []|].
  destruct (isspace x).
  - exists (x :: ws). cbn [app]. by rewrite <- IH.
  - by exists [].
Qed.

Lemma lstrip_all_space s : forallb isspace s = true → lstrip s = [].
Proof.
  induction s as [|x s IH]; cbn [forallb lstrip]; [done|].
  intros [-> H]%andb_prop. by apply IH.
Qed.

Lemma lstrip_id s : (∀ c, head s = Some c → isspace c = false) → lstrip s = s.
Proof.
  destruct s as [|x s]; cbn [lstrip head]; [done|].
  intros H. by rewrite (H x).
Qed.

Lemma last_rev s : last (rev s) = head s.
Proof. destruct s as [|x s]; [done|]. cbn [rev head]. apply last_snoc. Qed.

Lemma head_rev s : head (rev s) = last s.
Proof. by rewrite <- last_rev, rev_involutive. Qed.

Lemma rstrip_split s : ∃ ws, s = rstrip s ++ ws.
Proof.
  unfold rstrip. destruct (lstrip_split (rev s)) as [ws E].
  exists (rev ws). by rewrite <- rev_app_distr, <- E, rev_involutive.
Qed.

(** [strip] leaves neither leading nor trailing whitespace. *)
Lemma strip_trimmed s : trimmed (strip s).
Proof.
  unfold trimmed, strip. split; intros c Hc.
  - destruct (rstrip_split (lstrip s)) as [ws E].
    apply (lstrip_head s). rewrite E.
    destruct (rstrip (lstrip s)); [done|]. exact Hc.
  - unfold rstrip in Hc. rewrite last_rev in Hc. by eapply lstrip_head.
Qed.

Lemma strip_id s : trimmed s → strip s = s.
Proof.
  intros [Hh Hl]. unfold strip, rstrip. rewrite (lstrip_id s) by done.
  rewrite lstrip_id; [apply rev_involutive|].
  intros c. rewrite head_rev. apply Hl.
Qed.

Lemma strip_all_space s : forallb isspace s = true → strip s = [].
Proof. intros H. unfold strip. by rewrite lstrip_all_space. Qed.

End Strip.

(** ** More on the transcript extractor *)
Section TranscriptMore.
Import CRTranscriptParser.

Implicit Types (s : state) (data : list N) (evs : list event) (e : event).
Implicit Types (r x : gmap (list N) (list N)).
Implicit Types (l tl : list (gmap (list N) (list N))).

Lemma handle_starttag_lines s tag attrs s' :
  handle_starttag s tag attrs = Ok s' →
  lines s' = lines s ∧ (in_lines s = true → in_lines s' = true).
Proof.
  unfold handle_starttag.
  repeat (match goal with
          | |- context [if ?b then _ else _] => destruct b
          end); by intros [= <-].
Qed.

Lemma step_in_lines s e s' :
  in_lines s = true → step s e = Ok s' → in_lines s' = true.
Proof.
  intros Hin. destruct e as [tag attrs|tag|data]; cbn [step].
  - intros H. by apply (handle_starttag_lines _ _ _ _ H).
  - by intros [= <-].
  - intros H. apply handle_data_process in H as [_ ->]. done.
Qed.

(** The lines region is never left: no callback clears [in_lines], so
    markers that come after the close tag of the container still count. *)
Theorem lines_region_is_never_left evs s s' :
  in_lines s = true → run step s evs = Ok s' → in_lines s' = true.
Proof.
  apply (run_invariant step (fun s => in_lines s = true)).
  intros s0 e s1. apply step_in_lines.
Qed.

Lemma lines_region_is_never_left_witness :
  in_lines (mk true [ {[ lit "name" := lit "Matt" ]} ] None) = true.
Proof.
  apply (lines_region_is_never_left
           [EndTag (lit "div"); StartTag (lit "strong") []; Data (lit "Matt")]
           (mk true [] None)); reflexivity.
Defined.

Lemma extends_refl r : extends r r.
Proof. split; [done|]. intros t Ht. by exists t. Qed.

Lemma step_append_only l x s e s' :
  (∃ x' tl, lines s = l ++ x' :: tl ∧ extends x x') →
  step s e = Ok s' →
  ∃ x' tl, lines s' = l ++ x' :: tl ∧ extends x x'.
Proof.
  intros (x' & tl & Hl & Hx). destruct e as [tag attrs|tag|data]; cbn [step].
  - intros H. apply handle_starttag_lines in H as [-> _]. eauto.
  - intros [= <-]. eauto.
  - unfold handle_data.
    destruct (process_truthy (process s)); [|intros [= <-]; eauto].
    destruct (bool_decide (process s = Some (lit "name"))).
    { intros [= <-]. cbn [lines].
      exists x', (tl ++ [ {[ lit "name" := strip data ]} ]).
      split; [|done]. by rewrite Hl, <- app_assoc. }
    destruct (bool_decide (process s = Some (lit "text")));
      [|intros [= <-]; eauto].
    rewrite Hl. destruct tl as [|z tl _] using rev_ind.
    + rewrite handle_text_snoc, bind_Ok. intros [= <-]. cbn [lines].
      eexists _, []. split; [done|].
      destruct (x' !! lit "text") as [old|] eqn:E.
      * destruct Hx as [Hn Ht]. split.
        { by rewrite lookup_insert_ne by discriminate. }
        intros t Hr. destruct (Ht t Hr) as (t' & Ht' & Hp).
        rewrite E in Ht'. injection Ht' as ->.
        rewrite lookup_insert_eq. eexists. split; [done|].
        etrans; [exact Hp|]. by apply prefix_app_r.
      * destruct Hx as [Hn Ht]. split.
        { by rewrite lookup_insert_ne by discriminate. }
        intros t Hr. destruct (Ht t Hr) as (t' & Ht' & _). congruence.
    + rewrite app_comm_cons, app_assoc, handle_text_snoc, bind_Ok.
      intros [= <-]. cbn [lines]. eexists x', (tl ++ [_]).
      split; [|done]. by rewrite <- app_assoc, <- app_comm_cons.
Qed.

(** The records are append-only.  Whatever input follows, the records
    before the current last one stay as they are and in place, and the last
    one keeps its speaker and has its text appended to at most; new records
    come after it. *)
Theorem records_are_append_only evs s s' l x :
  lines s = l ++ [x] → run step s evs = Ok s' →
  ∃ x' tl, lines s' = l ++ x' :: tl ∧ extends x x'.
Proof.
  intros Hl.
  apply (run_invariant step
           (fun s => ∃ x' tl, lines s = l ++ x' :: tl ∧ extends x x')).
  - intros s0 e s1. apply step_append_only.
  - exists x, []. split; [done|apply extends_refl].
Qed.

Lemma records_are_append_only_witness :
  ∃ x' tl,
    lines (mk true [ {[ lit "name" := lit "Matt" ]};
                     {[ lit "name" := lit "Laura";
                        lit "text" := lit "Hi there" ]};
                     {[ lit "name" := lit "Sam" ]} ] None) =
      [ {[ lit "name" := lit "Matt" ]} ] ++ x' :: tl
    ∧ extends {[ lit "name" := lit "Laura"; lit "text" := lit "Hi" ]} x'.
Proof.
  apply (records_are_append_only
           (text_event [] [] (lit "there") ++ name_event [] [] (lit "Sam"))
           (mk true [ {[ lit "name" := lit "Matt" ]};
                      {[ lit "name" := lit "Laura"; lit "text" := lit "Hi" ]} ]
               None)); reflexivity.
Defined.

Lemma step_names_trimmed s e s' :
  Forall (fun r => ∃ n, r !! lit "name" = Some n ∧ trimmed n) (lines s) →
  step s e = Ok s' →
  Forall (fun r => ∃ n, r !! lit "name" = Some n ∧ trimmed n) (lines s').
Proof.
  intros Hall. destruct e as [tag attrs|tag|data]; cbn [step].
  - intros H. by apply handle_starttag_lines in H as [-> _].
  - by intros [= <-].
  - unfold handle_data.
    destruct (process_truthy (process s)); [|by intros [= <-]].
    destruct (bool_decide (process s = Some (lit "name"))).
    { intros [= <-]. cbn [lines]. apply Forall_app. split; [done|].
      rewrite Forall_singleton, lookup_singleton_eq. eexists.
      split; [done|apply strip_trimmed]. }
    destruct (bool_decide (process s = Some (lit "text")));
      [|by intros [= <-]].
    destruct (lines s) as [|x l _] using rev_ind.
    + rewrite handle_text_nil. by intros [= <-].
    + rewrite handle_text_snoc, bind_Ok. intros [= <-]. cbn [lines].
      apply Forall_app in Hall as [Hl Hx]. apply Forall_app. split; [done|].
      rewrite Forall_singleton in Hx |- *.
      by rewrite lookup_insert_ne by discriminate.
Qed.

(** For every input, every record the extractor returns has a speaker
    name, and that name is free of leading and trailing whitespace. *)
Theorem speaker_names_are_trimmed evs :
  ∃ ls, parse evs = Ok ls
        ∧ Forall (fun r => ∃ n, r !! lit "name" = Some n ∧ trimmed n) ls.
Proof.
  unfold parse.
  destruct (run_total step transcript_step_total evs init) as [s Hs].
  unfold feed. rewrite Hs, bind_Ok. exists (lines s). split; [done|].
  eapply (run_invariant step
            (fun s => Forall (fun r => ∃ n, r !! lit "name" = Some n
                                            ∧ trimmed n) (lines s)));
    [apply step_names_trimmed| |exact Hs].
  constructor.
Qed.

(** Text data made of whitespace only still uses up a dialogue marker.  The
    last record gets an empty text, or a space after the text it has, and
    text data that follows before the next open tag is dropped. *)
Theorem blank_text_uses_up_the_marker s l x attrs tags ws after :
  in_lines s = true → lines s = l ++ [x] →
  forallb other_tag tags = true → forallb isspace ws = true →
  forallb (fun e => negb (is_starttag e)) after = true →
  run step s (text_event attrs tags ws ++ after) =
    Ok {| in_lines := true;
          lines := l ++ [ <[lit "text" := match x !! lit "text" with
                                          | Some old => old ++ lit " "
                                          | None => []
                                          end]> x ];
          process := None |}.
Proof.
  intros Hin Hl Htags Hws Hafter.
  rewrite run_app, run_text_event, Hl, handle_text_snoc, !bind_Ok by done.
  rewrite run_no_starttag by done.
  rewrite (strip_all_space ws) by done.
  by destruct (x !! lit "text"); rewrite ?app_nil_r.
Qed.

Lemma blank_text_uses_up_the_marker_witness :
  run step (mk true [ {[ lit "name" := lit "Matt" ]} ] None)
      (text_event [] [] (nl ++ lit "  ")
       ++ [Data (lit "Welcome back."); EndTag (lit "dd")]) =
    Ok {| in_lines := true;
          lines := [] ++ [ <[lit "text" :=
                              match ({[ lit "name" := lit "Matt" ]}
                                       : gmap (list N) (list N))
                                    !! lit "text" with
                              | Some old => old ++ lit " "
                              | None => []
                              end]> {[ lit "name" := lit "Matt" ]} ];
          process := None |}.
Proof.
  apply (blank_text_uses_up_the_marker
           (mk true [ {[ lit "name" := lit "Matt" ]} ] None) []);
    reflexivity.
Defined.




End TranscriptMore.

(** ** The rendering loop *)
Section Rendering.

Implicit Types (r : gmap (list N) (list N)).
Implicit Types (ls : list (gmap (list N) (list N))).

Lemma render_line_writes (include_names : bool) r :
  render_line include_names r =
    Ok ((if include_names then name_prefix r else []) ++ text_line r).
Proof.
  unfold render_line, name_prefix, text_line, getitem.
  destruct (r !! lit "name") as [n|], (r !! lit "text") as [t|],
    include_names; cbn [andb];
    rewrite ?bool_decide_eq_true_2 by eauto;
    rewrite ?bool_decide_eq_false_2 by (by intros [? ?]);
    reflexivity.
Qed.

(** The rendering loop never raises, whatever the records: each subscript
    is guarded by its membership test.  It writes, record by record, the
    bolded speaker (only when names are included and the record has one) and
    then the text with a line feed (only when the record has one); with
    names left out the output is made of the texts alone. *)
Theorem render_writes (include_names : bool) ls :
  render include_names ls =
    Ok (concat ((fun r => (if include_names then name_prefix r else [])
                          ++ text_line r) <$> ls)).
Proof.
  induction ls as [|r ls IH]; cbn [render fmap list_fmap concat]; [done|].
  by rewrite render_line_writes, IH, !bind_Ok.
Qed.

End Rendering.

(** ** More on the index extractor *)
Section IndexMore.
Import CRIndexParser.

Implicit Types (s : state) (evs : list event) (h : list N) (k : list N).
Implicit Types (attrs : list (list N * option (list N))).

(** When a tag repeats the [href] attribute, the last occurrence is the one
    the extractor reads. *)
Theorem last_href_is_read attrs1 (v : option (list N)) attrs2 :
  Forall (fun kv => kv.1 ≠ lit "href") attrs2 →
  get_href (attrs1 ++ (lit "href", v) :: attrs2) = v.
Proof.
  intros Hall. unfold get_href. rewrite dict_of_last by done. by destruct v.
Qed.

Lemma last_href_is_read_witness :
  get_href ([(lit "href", Some (lit "index.html"))]
            ++ (lit "href", Some (lit "cr1.html")) :: [(lit "class", None)]) =
    Some (lit "cr1.html").
Proof.
  apply (last_href_is_read [(lit "href", Some (lit "index.html"))]).
  repeat constructor. discriminate.
Defined.

(** An [a] tag without an [href], or whose last [href] has no value, is
    passed over without an error: the state is returned unchanged. *)
Theorem link_without_target_is_ignored s attrs :
  Forall (fun kv => kv.1 ≠ lit "href") attrs
  ∨ (∃ attrs1 attrs2, attrs = attrs1 ++ (lit "href", None) :: attrs2
                      ∧ Forall (fun kv => kv.1 ≠ lit "href") attrs2) →
  handle_starttag s (lit "a") attrs = Ok s.
Proof.
  intros H.
  assert (get_href attrs = None) as Hh.
  { destruct H as [H|(a1 & a2 & -> & H)].
    - unfold get_href. by rewrite dict_of_absent.
    - unfold get_href. by rewrite dict_of_last. }
  unfold handle_starttag. rewrite Hh.
  rewrite (bool_decide_eq_false_2 (lit "a" = lit "main")) by discriminate.
  by destruct (_ && _).
Qed.

Lemma link_without_target_is_ignored_witness :
  handle_starttag (mk true ∅) (lit "a") [(lit "name", Some (lit "cr1.html"))] =
    Ok (mk true ∅)
  ∧ handle_starttag (mk true ∅) (lit "a")
      ([(lit "href", Some (lit "cr1.html"))] ++ (lit "href", None) :: []) =
    Ok (mk true ∅).
Proof.
  split.
  - apply link_without_target_is_ignored. left.
    repeat constructor. discriminate.
  - apply link_without_target_is_ignored. right.
    exists [(lit "href", Some (lit "cr1.html"))], []. split; [reflexivity|].
    constructor.
Defined.

(** The result set only grows: no callback removes a file name. *)
Theorem transcript_files_only_grow evs s s' :
  run step s evs = Ok s' → transcript_files s ⊆ transcript_files s'.
Proof.
  intros H.
  apply (run_invariant step
           (fun s0 => transcript_files s ⊆ transcript_files s0))
    with (evs := evs) (s := s); [|done|done].
  intros s0 e s1 Hsub Hstep h Hh.
  apply (index_step_files _ _ _ h Hstep). left. by apply Hsub.
Qed.

Lemma transcript_files_only_grow_witness :
  transcript_files (mk true {[ lit "cr0.html" ]})
  ⊆ transcript_files (mk false ({[ lit "cr0.html" ]} ∪ {[ lit "cr1.html" ]})).
Proof.
  apply (transcript_files_only_grow
           [StartTag (lit "a") [(lit "href", Some (lit "cr1.html"))];
            EndTag (lit "main")]).
  reflexivity.
Defined.

Lemma run_outside_main evs s :
  forallb (fun e => negb (is_main_open e)) evs = true →
  in_main s = false → run step s evs = Ok s.
Proof.
  induction evs as [|e evs IH]; intros Hall Hin; [done|].
  cbn [forallb] in Hall. apply andb_prop in Hall as [He Hall].
  apply negb_true_iff in He.
  cbn [run]. destruct e as [tag attrs|tag|data]; cbn [step].
  - unfold handle_starttag. cbn [is_main_open] in He.
    rewrite He, Hin, andb_false_r, bind_Ok. by apply IH.
  - unfold handle_endtag. destruct (bool_decide _); rewrite bind_Ok.
    + replace (mk false (transcript_files s)) with s
        by (destruct s; cbn in *; by subst).
      by apply IH.
    + by apply IH.
  - rewrite bind_Ok. by apply IH.
Qed.

(** Links are collected only after a [main] open tag.  A document without
    one yields the empty set; and after a [main] close tag nothing more is
    added until the next [main] open tag, however many [main] elements were
    open: the close tag of an inner one ends the collection. *)
Theorem links_need_an_open_main evs :
  forallb (fun e => negb (is_main_open e)) evs = true →
  feed evs = Ok init
  ∧ ∀ s, run step s (EndTag (lit "main") :: evs) =
           Ok {| in_main := false; transcript_files := transcript_files s |}.
Proof.
  intros Hevs. split.
  - by apply run_outside_main.
  - intros s. cbn [run step]. rewrite handle_endtag_main, bind_Ok.
    by apply run_outside_main.
Qed.

Lemma links_need_an_open_main_witness :
  feed [StartTag (lit "a") [(lit "href", Some (lit "cr1.html"))]] = Ok init
  ∧ run step init
      ([StartTag (lit "main") []; StartTag (lit "main") []]
       ++ EndTag (lit "main")
          :: [StartTag (lit "a") [(lit "href", Some (lit "cr1.html"))]]) =
    Ok init.
Proof.
  destruct (links_need_an_open_main
              [StartTag (lit "a") [(lit "href", Some (lit "cr1.html"))]]
              eq_refl) as [H1 H2].
  split; [exact H1|].
  exact (H2 (mk true ∅)).
Defined.

(** The update step downloads exactly the names that the index document
    links to inside its main region (between a [main] open tag and the next
    [main] close tag) and that are not among the local files: a missing
    transcript linked outside the region is not fetched, and one that is
    present is not fetched again. *)
Theorem update_downloads_missing_links evs (present : gset (list N)) :
  ∃ s, feed evs = Ok s
       ∧ ∀ h, h ∈ to_download (transcript_files s) present
              ↔ linked_in_main evs h ∧ h ∉ present.
Proof.
  destruct (feed_files evs) as (s & Hs & Hfiles). exists s. split; [done|].
  intros h. unfold to_download. by rewrite elem_of_difference, Hfiles.
Qed.

End IndexMore.

(** ** Names of the output files *)
Section OutputNames.

Implicit Types (s base mid : list N) (c : N) (i found : Z).

Lemma rfind_from_app c s1 s2 i found :
  rfind_from c (s1 ++ s2) i found =
  rfind_from c s2 (i + Z.of_nat (length s1))%Z (rfind_from c s1 i found).
Proof.
  revert i found. induction s1 as [|x s1 IH]; intros i found.
  - cbn [app rfind_from length]. by rewrite Z.add_0_r.
  - cbn [app rfind_from length]. rewrite IH. f_equal. lia.
Qed.

Lemma rfind_dot_html base :
  rfind 46 (base ++ lit ".html") = Z.of_nat (length base).
Proof. unfold rfind. by rewrite rfind_from_app. Qed.

Lemma stem_html base : base ≠ [] → stem (base ++ lit ".html") = base.
Proof.
  intros Hne. unfold stem. rewrite rfind_dot_html, length_app.
  change (length (lit ".html")) with 5%nat.
  assert (0 < length base)%nat by (destruct base; [done|cbn; lia]).
  replace ((0 <? Z.of_nat (length base))%Z) with true
    by (symmetry; apply Z.ltb_lt; lia).
  replace ((Z.of_nat (length base) <? Z.of_nat (length base + 5) - 1)%Z)
    with true by (symmetry; apply Z.ltb_lt; lia).
  cbn [andb]. rewrite Nat2Z.id. apply take_app_length.
Qed.

(** A transcript file [cr....html] is written to [cr....md]: only the final
    [.html] is replaced, whatever dots the rest of the name holds.  Hence
    two different transcript files never share an output file. *)
Theorem output_name_swaps_the_extension :
  (∀ mid, output_name (lit "cr" ++ mid ++ lit ".html") =
            lit "cr" ++ mid ++ lit ".md")
  ∧ (∀ mid1 mid2,
       output_name (lit "cr" ++ mid1 ++ lit ".html") =
       output_name (lit "cr" ++ mid2 ++ lit ".html") →
       mid1 = mid2).
Proof.
  assert (∀ mid, output_name (lit "cr" ++ mid ++ lit ".html") =
                   lit "cr" ++ mid ++ lit ".md") as Hout.
  { intros mid. unfold output_name.
    rewrite (app_assoc (lit "cr") mid), stem_html by done.
    by rewrite <- app_assoc. }
  split; [exact Hout|].
  intros mid1 mid2. rewrite !Hout. intros H.
  apply (inj (app (lit "cr"))) in H. by apply (inj (λ m, m ++ lit ".md")) in H.
Qed.

Lemma output_name_swaps_the_extension_witness :
  lit "1.0" = lit "1.0".
Proof.
  apply (proj2 output_name_swaps_the_extension (lit "1.0") (lit "1.0")).
  reflexivity.
Defined.

End OutputNames.

(** ** A speaker marker around blank text *)
Section BlankName.
Import CRTranscriptParser.

(** A Name event whose data is whitespace only still appends a record: its
    speaker is the empty string, which the rendering loop writes as a bold
    prefix with nothing between the asterisks. *)
Theorem blank_name_still_makes_a_record (s : state) attrs tags ws :
  in_lines s = true → forallb other_tag tags = true →
  forallb isspace ws = true →
  run step s (name_event attrs tags ws) =
    Ok {| in_lines := true;
          lines := lines s ++ [ {[ lit "name" := [] ]} ];
          process := None |}
  ∧ render true [ {[ lit "name" := [] ]} ] = Ok (lit "****: ").
Proof.
  intros Hin Htags Hws. split.
  - by rewrite run_name_event, (strip_all_space ws) by done.
  - reflexivity.
Qed.

Lemma blank_name_still_makes_a_record_witness :
  run step (mk true [] None)
      (name_event [] [StartTag (lit "em") []] (lit " " ++ nl)) =
    Ok {| in_lines := true;
          lines := lines (mk true [] None) ++ [ {[ lit "name" := [] ]} ];
          process := None |}
  ∧ render true [ {[ lit "name" := [] ]} ] = Ok (lit "****: ").
Proof.
  apply (blank_name_still_makes_a_record (mk true [] None)); reflexivity.
Defined.

End BlankName.
